(** * Coil pack designer: the winding-geometry engine

    A shallow embedding of [CoilPackModel.compute] (coil_pack_app.py) and the
    properties its specification states about it.

    Numbers.  Python's [int] is [Z].  The code is written once over the
    operations of [float] (class [Py.Float]) and read in two ways:

    - [exact]: the rationals [Q] with exact arithmetic.  A decimal literal
      stands for its decimal value and [math.pi] for the rational value of
      that constant.  The theorems are about this reading; its results are
      compared with [Qeq] ([==]), since a rational has many representations.
    - [binary64]: the kernel's IEEE 754 binary64 floats, rounded to nearest
      even, which is the arithmetic Python runs.  It serves to run the code
      on given inputs.  An operation that overflows yields its IEEE value
      where Python raises OverflowError, and [x ** 2] is taken as [x * x].

    The two readings agree on every count, and on the float results up to
    rounding as long as nothing overflows.  Where a property turns on
    rounding, a run on [binary64] shows it.

    Errors.  A division raises [ZeroDivisionError] on a zero divisor, so
    [compute] lives in an error monad; that it never raises in exact
    arithmetic is a theorem. *)

From Stdlib Require Import String ZArith QArith Qround List Bool Lia Lqa.
From Stdlib Require Import Floats.
Import ListNotations.

(** * The program *)

(** ** Python's evaluation model *)

Module Py.

Inductive exn : Type :=
| ZeroDivisionError.

Inductive result (A : Type) : Type :=
| Ok (a : A)
| Raise (e : exn).

Arguments Ok {A} a.
Arguments Raise {A} e.

Definition bind {A B : Type} (m : result A) (k : A -> result B) : result B :=
  match m with
  | Ok a => k a
  | Raise e => Raise e
  end.

(** [range(n)]: the integers [0 .. n-1], none when [n <= 0]. *)
Definition range (n : Z) : list Z := map Z.of_nat (seq 0 (Z.to_nat n)).

(** [sum(1 for c in cs if cond(c))]. *)
Definition sum_ones {A : Type} (cond : A -> bool) (cs : list A) : Z :=
  fold_left (fun acc c => if cond c then (acc + 1)%Z else acc) cs 0%Z.

(** The operations of [float] that the program uses. *)
Class Float (F : Type) : Type := {
  (** an [int] where a [float] is needed, as in [2 * x] *)
  of_int : Z -> F;
  (** a decimal literal, as in [1.08] *)
  literal : Q -> F;
  add : F -> F -> F;
  sub : F -> F -> F;
  mul : F -> F -> F;
  (** [x / y] for a non-zero [y] *)
  quotient : F -> F -> F;
  eqb : F -> F -> bool;
  ltb : F -> F -> bool;
  leb : F -> F -> bool;
  (** [math.ceil] *)
  ceil : F -> Z;
  (** [math.pi] *)
  pi : F
}.

Declare Scope py_scope.
Delimit Scope py_scope with py.
Infix "+" := add : py_scope.
Infix "-" := sub : py_scope.
Infix "*" := mul : py_scope.
Infix "<?" := ltb : py_scope.
Infix "<=?" := leb : py_scope.

Section Operations.

Context {F : Type} `{Float F}.

(** [max(a, b)] keeps its first argument unless the second is greater. *)
Definition max (a b : F) : F := if ltb a b then b else a.

(** [x / y] on floats. *)
Definition truediv (x y : F) : result F :=
  if eqb y (of_int 0) then Raise ZeroDivisionError else Ok (quotient x y).

(** [a / b] on ints: true division, a float. *)
Definition int_truediv (a b : Z) : result F :=
  truediv (of_int a) (of_int b).

(** [x ** 2]. *)
Definition pow2 (x : F) : F := mul x x.

End Operations.

End Py.

Notation "x <- m ;; k" := (Py.bind m (fun x => k))
  (at level 61, m at next level, right associativity).

Import Py.

(** Exact arithmetic. *)
#[export] Instance exact : Float Q := {|
  of_int := inject_Z;
  literal := fun q => q;
  add := Qplus;
  sub := Qminus;
  mul := Qmult;
  quotient := Qdiv;
  eqb := Qeq_bool;
  ltb := fun x y => negb (Qle_bool y x);
  leb := Qle_bool;
  ceil := Qceiling;
  pi := 884279719003555 # 281474976710656
|}.

(** An [int] as a binary64 float, rounded to nearest even. *)
Definition float_of_Z (n : Z) : float :=
  SF2Prim (binary_normalize prec emax n 0 false).

(** The least integer not below a finite float; 0 otherwise. *)
Definition float_ceil (x : float) : Z :=
  match Prim2SF x with
  | S754_finite s m e =>
      let n := if s then Zneg m else Zpos m in
      if (0 <=? e)%Z then (n * 2 ^ e)%Z else (- ((- n) / 2 ^ (- e)))%Z
  | _ => 0%Z
  end.

(** Binary64 arithmetic; [math.pi] is 0x1.921fb54442d18p+1. *)
#[export] Instance binary64 : Float float := {|
  of_int := float_of_Z;
  literal := fun q =>
    PrimFloat.div (float_of_Z (Qnum q)) (float_of_Z (Zpos (Qden q)));
  add := PrimFloat.add;
  sub := PrimFloat.sub;
  mul := PrimFloat.mul;
  quotient := PrimFloat.div;
  eqb := PrimFloat.eqb;
  ltb := PrimFloat.ltb;
  leb := PrimFloat.leb;
  ceil := float_ceil;
  pi := 0x1.921fb54442d18p+1%float
|}.

(** ** Data model *)

Record CoilInputs (F : Type) : Type := {
  inner_diameter_mm : F;
  outer_diameter_mm : F;
  bobbin_length_mm : F;
  strand_diameter_mm : F;
  strands_per_turn : Z;
  turns_per_layer : Z;
  total_turns : Z;
  insulation_factor : F;
  margin_mm : F;
  lead_slot_width_mm : F;
  lead_slot_depth_mm : F;
  horiz_pack_factor : F;
  vert_pack_factor : F;
  wire_type : string
}.

Arguments inner_diameter_mm {F} _.
Arguments outer_diameter_mm {F} _.
Arguments bobbin_length_mm {F} _.
Arguments strand_diameter_mm {F} _.
Arguments strands_per_turn {F} _.
Arguments turns_per_layer {F} _.
Arguments total_turns {F} _.
Arguments insulation_factor {F} _.
Arguments margin_mm {F} _.
Arguments lead_slot_width_mm {F} _.
Arguments lead_slot_depth_mm {F} _.
Arguments horiz_pack_factor {F} _.
Arguments vert_pack_factor {F} _.
Arguments wire_type {F} _.

Record CoilOutputs (F : Type) : Type := {
  window_width_mm : F;
  window_height_mm : F;
  layers : Z;
  strand_centers : list (F * F);
  strand_radius_mm : F;
  fill_factor : F;
  adjusted_turns : Z
}.

Arguments window_width_mm {F} _.
Arguments window_height_mm {F} _.
Arguments layers {F} _.
Arguments strand_centers {F} _.
Arguments strand_radius_mm {F} _.
Arguments fill_factor {F} _.
Arguments adjusted_turns {F} _.

(** The variables the layer loop updates. *)
Record LoopState (F : Type) : Type := {
  centers_global : list (F * F);
  remaining : Z
}.

Arguments centers_global {F} _.
Arguments remaining {F} _.

(** How a loop was left. *)
Inductive LoopExit : Type :=
| Exhausted
| Break.

(** ** CoilPackModel.compute *)

Section Program.

Context {F : Type} `{Float F}.

Open Scope py_scope.

(** The dataclass constructor with the defaulted fields left out. *)
Definition CoilInputs_default (inner outer bobbin strand : F) (strands tpl total : Z)
  : CoilInputs F :=
  {| inner_diameter_mm := inner;
     outer_diameter_mm := outer;
     bobbin_length_mm := bobbin;
     strand_diameter_mm := strand;
     strands_per_turn := strands;
     turns_per_layer := tpl;
     total_turns := total;
     insulation_factor := literal 1.08;
     margin_mm := literal 0.75;
     lead_slot_width_mm := literal 10.0;
     lead_slot_depth_mm := literal 5.0;
     horiz_pack_factor := literal 0.86;
     vert_pack_factor := literal 0.77;
     wire_type := "Copper"%string |}.

Variable p : CoilInputs F.

(** The locals of [compute] that the placement loops read. *)
Variables d_eff radius spacing_x spacing_y : F.

(** [for s in range(p.strands_per_turn)]: one center per strand. *)
Definition strand_loop (base_x base_y : F) (centers : list (F * F))
  : list (F * F) :=
  fold_left
    (fun centers s =>
       let lx := of_int s * d_eff in
       centers ++ [(base_x + lx + radius, base_y + radius)])
    (range (strands_per_turn p)) centers.

(** [for tx in range(turns_this_layer)]. *)
Definition turn_loop (ly turns_this_layer : Z) (centers : list (F * F))
  : list (F * F) :=
  fold_left
    (fun centers tx =>
       let base_x := margin_mm p + of_int tx * spacing_x in
       let base_y := margin_mm p + of_int ly * spacing_y in
       strand_loop base_x base_y centers)
    (range turns_this_layer) centers.

(** One pass through the body of [for ly in range(layers)]; the boolean
    tells whether the pass ended in [break]. *)
Definition layer_body (ly : Z) (st : LoopState F) : LoopState F * bool :=
  let turns_this_layer := Z.min (turns_per_layer p) (remaining st) in
  let centers := turn_loop ly turns_this_layer (centers_global st) in
  let remaining' := (remaining st - turns_this_layer)%Z in
  ({| centers_global := centers; remaining := remaining' |},
   (remaining' <=? 0)%Z).

(** [for ly in range(layers): ...] over the layer indices still to visit.
    Besides the final state it reports how many passes ran and how the loop
    was left; [compute] reads the state only. *)
Fixpoint layer_loop (lys : list Z) (st : LoopState F) (passes : nat)
  : LoopState F * nat * LoopExit :=
  match lys with
  | [] => (st, passes, Exhausted)
  | ly :: rest =>
      let '(st', broke) := layer_body ly st in
      if broke then (st', S passes, Break)
      else layer_loop rest st' (S passes)
  end.

End Program.

Section Engine.

Context {F : Type} `{Float F}.

Open Scope py_scope.

(** [left <= x <= right and bottom <= y <= top]. *)
Definition in_window (left right bottom top : F) (c : F * F) : bool :=
  let '(x, y) := c in
  ((left <=? x) && (x <=? right)) && ((bottom <=? y) && (y <=? top)).

(** The float literals [0.0] and [2.0] are written [of_int 0] and
    [of_int 2], as the ints [0], [2] and [100] that meet a float are. *)
Definition compute (p : CoilInputs F) : result (CoilOutputs F) :=
  radial_thickness <-
    truediv (outer_diameter_mm p - inner_diameter_mm p) (of_int 2) ;;
  let window_height := max (of_int 0) (radial_thickness - of_int 2 * margin_mm p) in
  let window_width := max (of_int 0) (bobbin_length_mm p - of_int 2 * margin_mm p) in
  let d_eff := strand_diameter_mm p * insulation_factor p in
  radius <- truediv d_eff (of_int 2) ;;
  if (window_width <=? of_int 0) || (window_height <=? of_int 0) then
    Ok {| window_width_mm := window_width;
          window_height_mm := window_height;
          layers := 0;
          strand_centers := [];
          strand_radius_mm := radius;
          fill_factor := of_int 0;
          adjusted_turns := 0 |}
  else
    let bundle_w := of_int (strands_per_turn p) * d_eff in
    let spacing_x := bundle_w * horiz_pack_factor p in
    let spacing_y := d_eff * vert_pack_factor p in
    turns_over_layer <- int_truediv (total_turns p) (Z.max 1 (turns_per_layer p)) ;;
    let layers := ceil turns_over_layer in
    let '(st, _, _) :=
      layer_loop p d_eff radius spacing_x spacing_y (range layers)
        {| centers_global := []; remaining := total_turns p |} 0 in
    let centers := centers_global st in
    let left := margin_mm p in
    let right := margin_mm p + window_width in
    let bottom := margin_mm p in
    let top := margin_mm p + window_height in
    let in_window_count := sum_ones (in_window left right bottom top) centers in
    let copper_area := of_int in_window_count * pi * pow2 radius in
    let window_area := window_width * window_height in
    fill_factor <-
      (if of_int 0 <? window_area
       then (ratio <- truediv copper_area window_area ;; Ok (ratio * of_int 100))
       else Ok (of_int 0)) ;;
    Ok {| window_width_mm := window_width;
          window_height_mm := window_height;
          layers := layers;
          strand_centers := centers;
          strand_radius_mm := radius;
          fill_factor := fill_factor;
          adjusted_turns := total_turns p |}.

(** The inputs [CoilApp] starts with. *)
Definition app_inputs : CoilInputs F :=
  CoilInputs_default
    (literal 8.375 * literal 25.4) (literal 10.53 * literal 25.4)
    (literal 0.546 * literal 25.4) (literal 0.0337 * literal 25.4)
    3 5 180.

(** The same inputs with another number of turns. *)
Definition with_total_turns (p : CoilInputs F) (n : Z) : CoilInputs F :=
  {| inner_diameter_mm := inner_diameter_mm p;
     outer_diameter_mm := outer_diameter_mm p;
     bobbin_length_mm := bobbin_length_mm p;
     strand_diameter_mm := strand_diameter_mm p;
     strands_per_turn := strands_per_turn p;
     turns_per_layer := turns_per_layer p;
     total_turns := n;
     insulation_factor := insulation_factor p;
     margin_mm := margin_mm p;
     lead_slot_width_mm := lead_slot_width_mm p;
     lead_slot_depth_mm := lead_slot_depth_mm p;
     horiz_pack_factor := horiz_pack_factor p;
     vert_pack_factor := vert_pack_factor p;
     wire_type := wire_type p |}.

(** The same inputs with the five lengths multiplied by [k]. *)
Definition scale (k : F) (p : CoilInputs F) : CoilInputs F :=
  {| inner_diameter_mm := k * inner_diameter_mm p;
     outer_diameter_mm := k * outer_diameter_mm p;
     bobbin_length_mm := k * bobbin_length_mm p;
     strand_diameter_mm := k * strand_diameter_mm p;
     strands_per_turn := strands_per_turn p;
     turns_per_layer := turns_per_layer p;
     total_turns := total_turns p;
     insulation_factor := insulation_factor p;
     margin_mm := k * margin_mm p;
     lead_slot_width_mm := lead_slot_width_mm p;
     lead_slot_depth_mm := lead_slot_depth_mm p;
     horiz_pack_factor := horiz_pack_factor p;
     vert_pack_factor := vert_pack_factor p;
     wire_type := wire_type p |}.

(** A grid of single strands: integer lengths, no compression. *)
Definition grid_inputs (outer bobbin strand margin : Z) (insulation : Z)
  (tpl total : Z) : CoilInputs F :=
  {| inner_diameter_mm := of_int 0;
     outer_diameter_mm := of_int outer;
     bobbin_length_mm := of_int bobbin;
     strand_diameter_mm := of_int strand;
     strands_per_turn := 1;
     turns_per_layer := tpl;
     total_turns := total;
     insulation_factor := of_int insulation;
     margin_mm := of_int margin;
     lead_slot_width_mm := literal 10.0;
     lead_slot_depth_mm := literal 5.0;
     horiz_pack_factor := of_int 1;
     vert_pack_factor := of_int 1;
     wire_type := "Copper"%string |}.

End Engine.

(** * The vocabulary of the specification *)

Section Quantities.

Variable p : CoilInputs Q.

Definition d_eff_of : Q := strand_diameter_mm p * insulation_factor p.

Definition radius_of : Q := d_eff_of / 2.

Definition spacing_x_of : Q :=
  inject_Z (strands_per_turn p) * d_eff_of * horiz_pack_factor p.

Definition spacing_y_of : Q := d_eff_of * vert_pack_factor p.

(** The window before it is clamped at zero. *)
Definition raw_width : Q := bobbin_length_mm p - 2 * margin_mm p.

Definition raw_height : Q :=
  (outer_diameter_mm p - inner_diameter_mm p) / 2 - 2 * margin_mm p.

(** A valid window has positive width and positive height. *)
Definition valid_window : Prop := 0 < raw_width /\ 0 < raw_height.

Definition layer_count : Z :=
  ceil (inject_Z (total_turns p) / inject_Z (Z.max 1 (turns_per_layer p))).

(** The center of strand [s] of turn [tx] of layer [ly]. *)
Definition strand_center (ly tx s : Z) : Q * Q :=
  (margin_mm p + inject_Z tx * spacing_x_of + inject_Z s * d_eff_of + radius_of,
   margin_mm p + inject_Z ly * spacing_y_of + radius_of).

(** One turn: its strands by increasing index. *)
Definition turn_centers (ly tx : Z) : list (Q * Q) :=
  map (strand_center ly tx) (range (strands_per_turn p)).

(** One layer of [n] turns: its turns by increasing index. *)
Definition layer_centers (ly n : Z) : list (Q * Q) :=
  flat_map (turn_centers ly) (range n).

(** The turns layer [ly] receives. *)
Definition turns_in_layer (ly : Z) : Z :=
  Z.min (turns_per_layer p) (total_turns p - ly * turns_per_layer p).

(** The layers [lys] one after the other, each with the turns it receives. *)
Definition layout (lys : list Z) : list (Q * Q) :=
  flat_map (fun ly => layer_centers ly (turns_in_layer ly)) lys.

(** All centers: layer by layer, turn by turn, strand by strand. *)
Definition centers_in_order : list (Q * Q) := layout (range layer_count).

(** The turns numbered from [0]: turn [t] is in layer [t / turns_per_layer]
    at position [t mod turns_per_layer]. *)
Definition by_turn (t : Z) : list (Q * Q) :=
  turn_centers (t / turns_per_layer p) (t mod turns_per_layer p).

(** How [compute] leaves its layer loop. *)
Definition placement : LoopState Q * nat * LoopExit :=
  layer_loop p d_eff_of radius_of spacing_x_of spacing_y_of (range layer_count)
    {| centers_global := []; remaining := total_turns p |} 0.

Definition placed : list (Q * Q) := centers_global (fst (fst placement)).

(** The window test of the fill factor. *)
Definition counted : Q * Q -> bool :=
  in_window (margin_mm p) (margin_mm p + raw_width)
    (margin_mm p) (margin_mm p + raw_height).

End Quantities.

(** The ceiling of a quotient of integers, on the integers. *)
Definition ceil_div (a b : Z) : Z := (- ((- a) / b))%Z.


(** The closed window [[left, right] x [bottom, top]]. *)
Definition within (left right bottom top : Q) (c : Q * Q) : Prop :=
  (left <= fst c /\ fst c <= right) /\ (bottom <= snd c /\ snd c <= top).

(** ** Sample inputs *)

(** The application's inputs in exact arithmetic. *)
Definition app_exact : CoilInputs Q := app_inputs.



(** The application's inputs on a bobbin of length 1: narrower than the two
    margins. *)
Definition narrow_bobbin : CoilInputs Q :=
  CoilInputs_default (8.375 * 25.4) (10.53 * 25.4) 1 (0.0337 * 25.4) 3 5 180.



(** Binary64 runs: a window of 2 by 1 behind a margin of 2, three layers of
    one strand of radius 1, and the float 0.1. *)
Definition grid_mm : CoilInputs float := grid_inputs 10 6 2 2 1 1 3.

Definition tenth : float := literal 0.1.

(** The application's inputs on binary64 floats, and three variants. *)
Definition app_binary64 : CoilInputs float := app_inputs.

Definition narrow_bobbin_binary64 : CoilInputs float :=
  CoilInputs_default (inner_diameter_mm app_binary64)
    (outer_diameter_mm app_binary64) (of_int 1)
    (strand_diameter_mm app_binary64) 3 5 180.

Definition no_turn_per_layer_binary64 : CoilInputs float :=
  CoilInputs_default (inner_diameter_mm app_binary64)
    (outer_diameter_mm app_binary64) (bobbin_length_mm app_binary64)
    (strand_diameter_mm app_binary64) 3 0 4.

(** What a run returns, without the coordinates. *)
Definition summary {F : Type} (r : result (CoilOutputs F)) : option (Z * nat * F * Z) :=
  match r with
  | Ok out =>
      Some (layers out, length (strand_centers out), fill_factor out,
            adjusted_turns out)
  | Raise _ => None
  end.

(** The same inputs with other lead-slot dimensions and wire type. *)
Definition with_presentation {F : Type} (p : CoilInputs F) (slot_width slot_depth : F)
  (wire : string) : CoilInputs F :=
  {| inner_diameter_mm := inner_diameter_mm p;
     outer_diameter_mm := outer_diameter_mm p;
     bobbin_length_mm := bobbin_length_mm p;
     strand_diameter_mm := strand_diameter_mm p;
     strands_per_turn := strands_per_turn p;
     turns_per_layer := turns_per_layer p;
     total_turns := total_turns p;
     insulation_factor := insulation_factor p;
     margin_mm := margin_mm p;
     lead_slot_width_mm := slot_width;
     lead_slot_depth_mm := slot_depth;
     horiz_pack_factor := horiz_pack_factor p;
     vert_pack_factor := vert_pack_factor p;
     wire_type := wire |}.

(** * CoilApp

    The application object around the model: the editable variables, the
    unit toggle, the inputs handed to [compute] and the patches drawn from
    its result.  It is read in exact arithmetic.  Of the figure, the model
    follows [ax.patches]; texts, arrows, axis settings and the canvas refresh
    add no patch and are not followed. *)

(** [int(x)] of a float: towards zero. *)
Definition py_int (x : Q) : Z := if Qle_bool 0 x then Qfloor x else Qceiling x.

(** The integer nearest to [x], a tie going to the even one. *)
Definition round_half_even (x : Q) : Z :=
  let f := Qfloor x in
  match Qcompare (x - inject_Z f) (1 # 2) with
  | Lt => f
  | Gt => (f + 1)%Z
  | Eq => if Z.even f then f else (f + 1)%Z
  end.

(** [round(x, ndigits)]. *)
Definition py_round (x : Q) (ndigits : Z) : Q :=
  inject_Z (round_half_even (x * 10 ^ ndigits)) / 10 ^ ndigits.

(** The keys of the [DoubleVar]s in [self.vars]. *)
Module Key.

Inductive t : Type :=
| inner_diameter
| outer_diameter
| bobbin_length
| strand_diameter
| horiz_pack_factor
| vert_pack_factor.

End Key.

(** [self.vars]: one variable per entry field, under fixed keys. *)
Module Vars.

Record t : Type := {
  inner_diameter : Q;
  outer_diameter : Q;
  bobbin_length : Q;
  strand_diameter : Q;
  strands_per_turn : Z;
  turns_per_layer : Z;
  total_turns : Z;
  horiz_pack_factor : Q;
  vert_pack_factor : Q
}.

(** [self.vars[key].get()]. *)
Definition get (v : t) (key : Key.t) : Q :=
  match key with
  | Key.inner_diameter => inner_diameter v
  | Key.outer_diameter => outer_diameter v
  | Key.bobbin_length => bobbin_length v
  | Key.strand_diameter => strand_diameter v
  | Key.horiz_pack_factor => horiz_pack_factor v
  | Key.vert_pack_factor => vert_pack_factor v
  end.

(** [self.vars[key].set(x)]. *)
Definition set (v : t) (key : Key.t) (x : Q) : t :=
  {| inner_diameter :=
       match key with Key.inner_diameter => x | _ => inner_diameter v end;
     outer_diameter :=
       match key with Key.outer_diameter => x | _ => outer_diameter v end;
     bobbin_length :=
       match key with Key.bobbin_length => x | _ => bobbin_length v end;
     strand_diameter :=
       match key with Key.strand_diameter => x | _ => strand_diameter v end;
     strands_per_turn := strands_per_turn v;
     turns_per_layer := turns_per_layer v;
     total_turns := total_turns v;
     horiz_pack_factor :=
       match key with Key.horiz_pack_factor => x | _ => horiz_pack_factor v end;
     vert_pack_factor :=
       match key with Key.vert_pack_factor => x | _ => vert_pack_factor v end |}.

End Vars.

(** What [add_patch] receives. *)
Inductive Patch : Type :=
| Rectangle (xy : Q * Q) (width height : Q) (edgecolor facecolor : string)
    (linewidth : Q)
| Circle (xy : Q * Q) (radius : Q) (edgecolor facecolor : string)
    (linewidth : Q).

(** Drawing: a computation over [ax.patches] that may raise. *)
Module Axes.

Definition M (A : Type) : Type := list Patch -> list Patch * result A.

Definition ret {A : Type} (a : A) : M A := fun ps => (ps, Ok a).

Definition bind {A B : Type} (m : M A) (k : A -> M B) : M B :=
  fun ps =>
    match m ps with
    | (ps', Ok a) => k a ps'
    | (ps', Raise e) => (ps', Raise e)
    end.

(** A computation that draws nothing. *)
Definition lift {A : Type} (r : result A) : M A := fun ps => (ps, r).

(** [ax.clear()]. *)
Definition clear : M unit := fun _ => ([], Ok tt).

(** [ax.add_patch(patch)]. *)
Definition add_patch (patch : Patch) : M unit := fun ps => (ps ++ [patch], Ok tt).

End Axes.

Notation "x <~ m ;; k" := (Axes.bind m (fun x => k))
  (at level 61, m at next level, right associativity).

Module App.

(** The attributes of a [CoilApp] that its methods read and write. *)
Record t : Type := {
  is_metric : bool;
  vars : Vars.t;
  wire_type_var : string;
  patches : list Patch
}.

Definition _get_inputs (self : t) : CoilInputs Q :=
  let factor := if negb (is_metric self) then 25.4 else 1.0 in
  {| inner_diameter_mm := Vars.get (vars self) Key.inner_diameter * factor;
     outer_diameter_mm := Vars.get (vars self) Key.outer_diameter * factor;
     bobbin_length_mm := Vars.get (vars self) Key.bobbin_length * factor;
     strand_diameter_mm := Vars.get (vars self) Key.strand_diameter * factor;
     strands_per_turn := Vars.strands_per_turn (vars self);
     turns_per_layer := Vars.turns_per_layer (vars self);
     total_turns := Vars.total_turns (vars self);
     insulation_factor := 1.08;
     margin_mm := 0.75;
     lead_slot_width_mm := 10.0;
     lead_slot_depth_mm := 5.0;
     horiz_pack_factor := Vars.get (vars self) Key.horiz_pack_factor;
     vert_pack_factor := Vars.get (vars self) Key.vert_pack_factor;
     wire_type := wire_type_var self |}.

(** The layer a strand is coloured by, from its [y]. *)
Definition layer_index (inputs : CoilInputs Q) (y : Q) : result Z :=
  q <- truediv (y - margin_mm inputs)
         (strand_diameter_mm inputs * insulation_factor inputs
          * vert_pack_factor inputs) ;;
  Ok (py_int q).

(** [for (x, y) in outs.strand_centers]: one circle per strand. *)
Fixpoint draw_strands (inputs : CoilInputs Q) (outs : CoilOutputs Q)
  (display_factor : Q) (centers : list (Q * Q)) : Axes.M unit :=
  match centers with
  | [] => Axes.ret tt
  | (x, y) :: rest =>
      index <~ Axes.lift (layer_index inputs y) ;;
      let color :=
        if (index mod 2 =? 0)%Z then "#f5b54b"%string else "#add8e6"%string in
      let circ :=
        Circle (x * display_factor, y * display_factor)
          (strand_radius_mm outs * display_factor) "black" color 0.8 in
      _ <~ Axes.add_patch circ ;;
      draw_strands inputs outs display_factor rest
  end.

(** [for s in range(strands)]: the strands of the bundle illustration. *)
Fixpoint draw_bundle (illustration_x illustration_y d_eff strand_radius_mm
  display_factor : Q) (ss : list Z) : Axes.M unit :=
  match ss with
  | [] => Axes.ret tt
  | s :: rest =>
      let lx := inject_Z s * d_eff * display_factor in
      let circ_bundle :=
        Circle (illustration_x + lx, illustration_y)
          (strand_radius_mm * display_factor) "black" "#add8e6" 1.2 in
      _ <~ Axes.add_patch circ_bundle ;;
      draw_bundle illustration_x illustration_y d_eff strand_radius_mm
        display_factor rest
  end.

(** The patches of [_draw], in the order they are added. *)
Definition draw_patches (self : t) : Axes.M unit :=
  let inputs := _get_inputs self in
  outs <~ Axes.lift (compute inputs) ;;
  display_factor <~
    Axes.lift (if is_metric self then Ok 1.0 else truediv 1 25.4) ;;
  _ <~ Axes.clear ;;
  let outer_width := bobbin_length_mm inputs * display_factor in
  half <~ Axes.lift
    (truediv (outer_diameter_mm inputs - inner_diameter_mm inputs) 2.0) ;;
  let outer_height := half * display_factor in
  _ <~ Axes.add_patch
    (Rectangle (0, 0) outer_width outer_height "black" "none" 2) ;;
  let margin_disp := margin_mm inputs * display_factor in
  let inner_width := window_width_mm outs * display_factor in
  let inner_height := window_height_mm outs * display_factor in
  _ <~ Axes.add_patch
    (Rectangle (margin_disp, margin_disp) inner_width inner_height
       "green" "none" 1.5) ;;
  let notch_w := lead_slot_width_mm inputs * display_factor in
  let notch_d := lead_slot_depth_mm inputs * display_factor in
  notch_y <~ Axes.lift (truediv (outer_height - notch_w) 2) ;;
  _ <~ Axes.add_patch
    (Rectangle (- notch_d, notch_y) notch_d notch_w "black" "none" 2) ;;
  _ <~ draw_strands inputs outs display_factor (strand_centers outs) ;;
  let illustration_x := outer_width + 30 * display_factor in
  illustration_y <~ Axes.lift (truediv outer_height 2.0) ;;
  let d_eff := strand_diameter_mm inputs * insulation_factor inputs in
  strand_radius_mm <~ Axes.lift (truediv d_eff 2.0) ;;
  let strands := strands_per_turn inputs in
  draw_bundle illustration_x illustration_y d_eff strand_radius_mm
    display_factor (range strands).

Definition _draw (self : t) : t * result unit :=
  let '(ps, r) := draw_patches self (patches self) in
  ({| is_metric := is_metric self;
      vars := vars self;
      wire_type_var := wire_type_var self;
      patches := ps |}, r).

(** The lengths [toggle_units] converts. *)
Definition lengths : list Key.t :=
  [Key.inner_diameter; Key.outer_diameter; Key.bobbin_length;
   Key.strand_diameter].

(** [for key in [...]: var.set(round(var.get() / 25.4, 4))], and the same
    with [* 25.4] and 3 digits. *)
Fixpoint to_inches (keys : list Key.t) (v : Vars.t) : result Vars.t :=
  match keys with
  | [] => Ok v
  | key :: rest =>
      q <- truediv (Vars.get v key) 25.4 ;;
      to_inches rest (Vars.set v key (py_round q 4))
  end.

Fixpoint to_millimetres (keys : list Key.t) (v : Vars.t) : Vars.t :=
  match keys with
  | [] => v
  | key :: rest =>
      to_millimetres rest (Vars.set v key (py_round (Vars.get v key * 25.4) 3))
  end.

Definition toggle_units (self : t) : t * result unit :=
  match
    (if is_metric self then to_inches lengths (vars self)
     else Ok (to_millimetres lengths (vars self)))
  with
  | Raise e => (self, Raise e)
  | Ok v =>
      _draw {| is_metric := negb (is_metric self);
               vars := v;
               wire_type_var := wire_type_var self;
               patches := patches self |}
  end.

(** [__init__]: the variables hold the initial inputs, in millimetres. *)
Definition init : t * result unit :=
  let inputs : CoilInputs Q := app_inputs in
  _draw {| is_metric := true;
           vars := {| Vars.inner_diameter := inner_diameter_mm inputs;
                      Vars.outer_diameter := outer_diameter_mm inputs;
                      Vars.bobbin_length := bobbin_length_mm inputs;
                      Vars.strand_diameter := strand_diameter_mm inputs;
                      Vars.strands_per_turn := strands_per_turn inputs;
                      Vars.turns_per_layer := turns_per_layer inputs;
                      Vars.total_turns := total_turns inputs;
                      Vars.horiz_pack_factor := horiz_pack_factor inputs;
                      Vars.vert_pack_factor := vert_pack_factor inputs |};
           wire_type_var := wire_type inputs;
           patches := [] |}.

End App.

(** [y] is no further than [tol] from [x]. *)
Definition apart (tol x y : Q) : Prop := x - tol <= y /\ y <= x + tol.

(** The variables as [toggle_units] leaves them, towards inches and
    towards millimetres. *)
Definition in_inches (v : Vars.t) : Vars.t :=
  {| Vars.inner_diameter := py_round (Vars.inner_diameter v / 25.4) 4;
     Vars.outer_diameter := py_round (Vars.outer_diameter v / 25.4) 4;
     Vars.bobbin_length := py_round (Vars.bobbin_length v / 25.4) 4;
     Vars.strand_diameter := py_round (Vars.strand_diameter v / 25.4) 4;
     Vars.strands_per_turn := Vars.strands_per_turn v;
     Vars.turns_per_layer := Vars.turns_per_layer v;
     Vars.total_turns := Vars.total_turns v;
     Vars.horiz_pack_factor := Vars.horiz_pack_factor v;
     Vars.vert_pack_factor := Vars.vert_pack_factor v |}.

Definition in_millimetres (v : Vars.t) : Vars.t :=
  {| Vars.inner_diameter := py_round (Vars.inner_diameter v * 25.4) 3;
     Vars.outer_diameter := py_round (Vars.outer_diameter v * 25.4) 3;
     Vars.bobbin_length := py_round (Vars.bobbin_length v * 25.4) 3;
     Vars.strand_diameter := py_round (Vars.strand_diameter v * 25.4) 3;
     Vars.strands_per_turn := Vars.strands_per_turn v;
     Vars.turns_per_layer := Vars.turns_per_layer v;
     Vars.total_turns := Vars.total_turns v;
     Vars.horiz_pack_factor := Vars.horiz_pack_factor v;
     Vars.vert_pack_factor := Vars.vert_pack_factor v |}.

(** The application once started, and the same with a wire diameter of 0
    typed in. *)
Definition started : App.t := fst App.init.


(** Splits a conjunction into its conjuncts, and nothing below them. *)
Ltac conjuncts := repeat match goal with |- _ /\ _ => split end.

(** Reads the operations of the class at [exact]. *)
Ltac exact_arith :=
  cbn [of_int literal add sub mul quotient exact];
  change (inject_Z 0) with 0;
  change (inject_Z 2) with 2;
  change (inject_Z 100) with 100.

(** * Lemmas *)

(** ** The Python primitives *)

Lemma ltb_lt (x y : Q) : ltb x y = true <-> x < y.
Proof.
  change (ltb x y) with (negb (Qle_bool y x)). rewrite negb_true_iff. split; intro H.
  - apply Qnot_le_lt. intro Hle. apply Qle_bool_iff in Hle. congruence.
  - destruct (Qle_bool y x) eqn:E; [|reflexivity].
    apply Qle_bool_iff in E. apply Qle_not_lt in E. contradiction.
Qed.

Lemma ltb_ge (x y : Q) : ltb x y = false <-> y <= x.
Proof.
  change (ltb x y) with (negb (Qle_bool y x)).
  rewrite negb_false_iff. apply Qle_bool_iff.
Qed.

Lemma leb_le (x y : Q) : leb x y = true <-> x <= y.
Proof. apply Qle_bool_iff. Qed.

Lemma leb_gt (x y : Q) : leb x y = false <-> y < x.
Proof.
  change (leb x y) with (Qle_bool x y). split; intro H.
  - apply Qnot_le_lt. intro Hle. apply Qle_bool_iff in Hle. congruence.
  - destruct (Qle_bool x y) eqn:E; [|reflexivity].
    apply Qle_bool_iff in E. apply Qle_not_lt in E. contradiction.
Qed.

Lemma max0_pos (x : Q) : 0 < x -> Py.max 0 x = x.
Proof. intro H. unfold Py.max. apply ltb_lt in H. now rewrite H. Qed.

Lemma max0_nonpos (x : Q) : x <= 0 -> Py.max 0 x = 0.
Proof. intro H. unfold Py.max. apply ltb_ge in H. now rewrite H. Qed.

Lemma max0_nonneg (x : Q) : 0 <= Py.max 0 x.
Proof.
  unfold Py.max. destruct (ltb 0 x) eqn:E.
  - apply ltb_lt in E. lra.
  - lra.
Qed.

Lemma truediv_ok (x y : Q) : ~ y == 0 -> truediv x y = Ok (x / y).
Proof.
  intro H. unfold truediv. change (eqb y (of_int 0)) with (Qeq_bool y 0).
  destruct (Qeq_bool y 0) eqn:E; [|reflexivity].
  apply Qeq_bool_iff in E. contradiction.
Qed.

Lemma truediv_2 (x : Q) : truediv x 2 = Ok (x / 2).
Proof. reflexivity. Qed.

Lemma int_truediv_ok (a b : Z) :
  (1 <= b)%Z -> int_truediv a b = Ok (inject_Z a / inject_Z b).
Proof.
  intro Hb. unfold int_truediv. apply truediv_ok.
  unfold Qeq. simpl. lia.
Qed.

Lemma range_nonpos (n : Z) : (n <= 0)%Z -> range n = [].
Proof.
  intro H. unfold range. replace (Z.to_nat n) with 0%nat by lia. reflexivity.
Qed.

Lemma range_succ (n : Z) : (0 <= n)%Z -> range (n + 1) = range n ++ [n].
Proof.
  intro H. unfold range.
  replace (Z.to_nat (n + 1)) with (S (Z.to_nat n)) by lia.
  rewrite seq_S, map_app. simpl. now rewrite Z2Nat.id.
Qed.

Lemma length_range (n : Z) : length (range n) = Z.to_nat n.
Proof. unfold range. now rewrite length_map, length_seq. Qed.

Lemma In_range (n x : Z) : In x (range n) <-> (0 <= x < n)%Z.
Proof.
  unfold range. rewrite in_map_iff. split.
  - intros (i & <- & Hi). apply in_seq in Hi. lia.
  - intro H. exists (Z.to_nat x). split; [lia|]. apply in_seq. lia.
Qed.

Lemma map_of_nat_seq (a s n : nat) :
  map Z.of_nat (seq (a + s) n)
  = map (Z.add (Z.of_nat a)) (map Z.of_nat (seq s n)).
Proof.
  revert s. induction n as [|n IH]; intro s; simpl; [reflexivity|].
  f_equal; [lia|]. rewrite <- IH. now rewrite Nat.add_succ_r.
Qed.

Lemma range_app (a b : Z) :
  (0 <= a)%Z -> (0 <= b)%Z ->
  range (a + b) = range a ++ map (Z.add a) (range b).
Proof.
  intros Ha Hb. unfold range.
  rewrite Z2Nat.inj_add by assumption.
  rewrite seq_app, map_app. f_equal. simpl.
  rewrite <- (Nat.add_0_r (Z.to_nat a)), map_of_nat_seq.
  now rewrite Z2Nat.id.
Qed.

Lemma nth_error_range (n i : Z) :
  (0 <= i < n)%Z -> nth_error (range n) (Z.to_nat i) = Some i.
Proof.
  intro H. unfold range.
  rewrite nth_error_map, nth_error_seq.
  destruct (Nat.ltb_spec (Z.to_nat i) (Z.to_nat n)); [|lia].
  simpl. f_equal. lia.
Qed.

Lemma sum_ones_filter {A : Type} (cond : A -> bool) (cs : list A) :
  sum_ones cond cs = Z.of_nat (length (filter cond cs)).
Proof.
  unfold sum_ones.
  assert (G : forall acc,
             fold_left (fun acc c => if cond c then (acc + 1)%Z else acc) cs acc
             = (acc + Z.of_nat (length (filter cond cs)))%Z).
  { induction cs as [|c cs IH]; intro acc; simpl.
    - lia.
    - rewrite IH. destruct (cond c); simpl; lia. }
  now rewrite G.
Qed.

(** ** The ceiling of a quotient *)

Lemma ceil_quotient (a b : Z) : ceil (inject_Z a / inject_Z b) = ceil_div a b.
Proof.
  change (Qceiling (inject_Z a / inject_Z b) = ceil_div a b).
  unfold Qceiling, ceil_div. f_equal.
  rewrite Zdiv_Qdiv. apply Qfloor_comp.
  rewrite inject_Z_opp. unfold Qdiv. ring.
Qed.

Lemma ceil_div_bounds (a b : Z) :
  (1 <= b)%Z -> ((ceil_div a b - 1) * b < a <= ceil_div a b * b)%Z.
Proof.
  intro Hb. unfold ceil_div.
  pose proof (Z.div_mod (- a) b ltac:(lia)) as E.
  pose proof (Z.mod_pos_bound (- a) b ltac:(lia)) as R.
  nia.
Qed.

(** ** Lists built by nested loops *)

Section ListFacts.

Context {A B : Type}.

Lemma fold_left_append (g : A -> list B) (l : list A) (acc : list B) :
  fold_left (fun acc x => acc ++ g x) l acc = acc ++ flat_map g l.
Proof.
  revert acc. induction l as [|x l IH]; intro acc; simpl.
  - now rewrite app_nil_r.
  - now rewrite IH, app_assoc.
Qed.

Lemma flat_map_singleton (f : A -> B) (l : list A) :
  flat_map (fun x => [f x]) l = map f l.
Proof. induction l as [|x l IH]; simpl; congruence. Qed.

Lemma flat_map_nil (g : A -> list B) (l : list A) :
  (forall x, In x l -> g x = []) -> flat_map g l = [].
Proof.
  induction l as [|x l IH]; intro H; simpl; [reflexivity|].
  rewrite (H x) by now left. apply IH. intros y Hy. apply H. now right.
Qed.

Lemma flat_map_ext_In (f g : A -> list B) (l : list A) :
  (forall x, In x l -> f x = g x) -> flat_map f l = flat_map g l.
Proof.
  induction l as [|x l IH]; intro H; simpl; [reflexivity|].
  rewrite (H x) by now left. f_equal. apply IH. intros y Hy. apply H. now right.
Qed.

Lemma length_flat_map_uniform (g : A -> list B) (m : nat) (l : list A) :
  (forall x, In x l -> length (g x) = m) ->
  length (flat_map g l) = (length l * m)%nat.
Proof.
  induction l as [|x l IH]; intro H; simpl; [reflexivity|].
  rewrite length_app, (H x) by now left.
  rewrite IH; [reflexivity|]. intros y Hy. apply H. now right.
Qed.

Lemma nth_error_flat_map_uniform (g : A -> list B) (m : nat) (l : list A) :
  (forall x, In x l -> length (g x) = m) ->
  forall (i j : nat) (x : A),
    nth_error l i = Some x -> (j < m)%nat ->
    nth_error (flat_map g l) (i * m + j) = nth_error (g x) j.
Proof.
  induction l as [|y l IH]; intros H i j x Hi Hj.
  - destruct i; discriminate.
  - destruct i as [|i]; simpl in *.
    + injection Hi as ->. rewrite nth_error_app1; [reflexivity|].
      rewrite (H x) by now left. assumption.
    + rewrite nth_error_app2 by (rewrite (H y) by (now left); lia).
      rewrite (H y) by now left.
      replace (m + i * m + j - m)%nat with (i * m + j)%nat by lia.
      apply IH; try assumption. intros z Hz. apply H. now right.
Qed.

End ListFacts.

Lemma flat_map_map {A B C : Type} (f : A -> B) (g : B -> list C) (l : list A) :
  flat_map g (map f l) = flat_map (fun x => g (f x)) l.
Proof. induction l as [|x l IH]; simpl; congruence. Qed.

(** ** The placement loops in closed form *)

Section Loops.

Variable p : CoilInputs Q.

Local Abbreviation T := (total_turns p).
Local Abbreviation tpl := (turns_per_layer p).
Local Abbreviation spt := (strands_per_turn p).
Local Abbreviation loop :=
  (layer_loop p (d_eff_of p) (radius_of p) (spacing_x_of p) (spacing_y_of p)).
Local Abbreviation body :=
  (layer_body p (d_eff_of p) (radius_of p) (spacing_x_of p) (spacing_y_of p)).

Lemma strand_loop_spec (ly tx : Z) (cs : list (Q * Q)) :
  strand_loop p (d_eff_of p) (radius_of p)
    (margin_mm p + inject_Z tx * spacing_x_of p)
    (margin_mm p + inject_Z ly * spacing_y_of p) cs
  = cs ++ turn_centers p ly tx.
Proof.
  unfold strand_loop. cbv zeta.
  rewrite (fold_left_append (fun s => [strand_center p ly tx s])).
  now rewrite flat_map_singleton.
Qed.

Lemma turn_loop_spec (ly n : Z) (cs : list (Q * Q)) :
  turn_loop p (d_eff_of p) (radius_of p) (spacing_x_of p) (spacing_y_of p) ly n cs
  = cs ++ layer_centers p ly n.
Proof.
  unfold turn_loop, layer_centers. cbv zeta.
  generalize (range n) as l. intro l. revert cs.
  induction l as [|tx l IH]; intro cs; simpl.
  - now rewrite app_nil_r.
  - rewrite IH, strand_loop_spec, <- app_assoc. reflexivity.
Qed.

Lemma layer_body_spec (ly : Z) (st : LoopState Q) :
  body ly st
  = ({| centers_global :=
          centers_global st ++ layer_centers p ly (Z.min tpl (remaining st));
        remaining := remaining st - Z.min tpl (remaining st) |},
     (remaining st - Z.min tpl (remaining st) <=? 0)%Z).
Proof. unfold layer_body. cbv zeta. now rewrite turn_loop_spec. Qed.

(** As long as no pass before the last one of the list exhausts the turns,
    the loop appends the layout of the layers it is given. *)
Lemma layer_loop_centers (n k : nat) (cs : list (Q * Q)) (passes : nat) :
  (forall j : Z,
      (Z.of_nat k <= j < Z.of_nat k + Z.of_nat n - 1)%Z ->
      (0 < T - (j + 1) * tpl)%Z) ->
  centers_global
    (fst (fst (loop (map Z.of_nat (seq k n))
                 {| centers_global := cs; remaining := T - Z.of_nat k * tpl |}
                 passes)))
  = cs ++ layout p (map Z.of_nat (seq k n)).
Proof.
  revert k cs passes.
  induction n as [|n IH]; intros k cs passes H.
  - simpl. now rewrite app_nil_r.
  - cbn [seq map layer_loop]. rewrite layer_body_spec. cbn [remaining centers_global].
    unfold layout. cbn [flat_map]. fold (layout p (map Z.of_nat (seq (S k) n))).
    unfold turns_in_layer at 1.
    destruct (Z.leb_spec (T - Z.of_nat k * tpl
                          - Z.min tpl (T - Z.of_nat k * tpl)) 0) as [Hb|Hb].
    + cbn [fst centers_global]. f_equal.
      destruct n as [|n]; [simpl; now rewrite app_nil_r|].
      exfalso. specialize (H (Z.of_nat k)). lia.
    + replace (T - Z.of_nat k * tpl - Z.min tpl (T - Z.of_nat k * tpl))%Z
        with (T - Z.of_nat (S k) * tpl)%Z by lia.
      rewrite IH by (intros j Hj; apply H; lia).
      now rewrite app_assoc.
Qed.



Lemma layout_by_turn (n : nat) :
  (1 <= tpl)%Z -> (0 <= T)%Z ->
  layout p (range (Z.of_nat n))
  = flat_map (by_turn p) (range (Z.min T (Z.of_nat n * tpl))).
Proof.
  intros Htpl HT. induction n as [|n IH].
  - simpl. rewrite range_nonpos by lia. reflexivity.
  - rewrite Nat2Z.inj_succ, <- Z.add_1_r, range_succ by lia.
    unfold layout in *. rewrite flat_map_app, IH. cbn [flat_map].
    rewrite app_nil_r.
    set (a := Z.min T (Z.of_nat n * tpl)).
    set (b := (Z.min T ((Z.of_nat n + 1) * tpl) - a)%Z).
    replace (Z.min T ((Z.of_nat n + 1) * tpl)) with (a + b)%Z by lia.
    rewrite range_app by lia. rewrite flat_map_app. f_equal.
    unfold layer_centers, turns_in_layer.
    destruct (Z.le_gt_cases T (Z.of_nat n * tpl)) as [Hle|Hgt].
    + rewrite (range_nonpos b) by lia.
      rewrite range_nonpos by lia. reflexivity.
    + replace (Z.min tpl (T - Z.of_nat n * tpl)) with b by lia.
      rewrite flat_map_map.
      apply flat_map_ext_In. intros tx Htx. apply In_range in Htx.
      unfold by_turn. replace a with (Z.of_nat n * tpl)%Z by lia.
      rewrite Z.add_comm, Z.div_add, Z.mod_add by lia.
      rewrite Z.div_small, Z.mod_small by lia. reflexivity.
Qed.

Lemma layer_count_ceil_div : layer_count p = ceil_div T (Z.max 1 tpl).
Proof. apply ceil_quotient. Qed.

Lemma layer_count_bounds :
  ((layer_count p - 1) * Z.max 1 tpl < T <= layer_count p * Z.max 1 tpl)%Z.
Proof. rewrite layer_count_ceil_div. apply ceil_div_bounds. lia. Qed.

(** No pass before the last one exhausts the turns. *)
Lemma no_early_exit (j : Z) :
  (0 <= j < layer_count p - 1)%Z -> (0 < T - (j + 1) * tpl)%Z.
Proof.
  intro Hj. pose proof layer_count_bounds as B.
  destruct (Z.max_spec 1 tpl) as [[Hlt E]|[Hge E]]; rewrite E in B; nia.
Qed.

(** The list [compute] builds is the ordered list of the specification. *)
Lemma placed_in_order : placed p = centers_in_order p.
Proof.
  unfold placed, placement, centers_in_order.
  pose proof (layer_loop_centers (Z.to_nat (layer_count p)) 0 [] 0) as H.
  replace (T - Z.of_nat 0 * tpl)%Z with T in H by lia.
  apply H. intros j Hj. apply no_early_exit. lia.
Qed.

(** With at least one turn per layer, the list goes turn by turn. *)
Lemma placed_by_turn :
  (1 <= tpl)%Z -> (0 <= T)%Z -> placed p = flat_map (by_turn p) (range T).
Proof.
  intros Htpl HT. rewrite placed_in_order.
  pose proof layer_count_bounds as B.
  rewrite Z.max_r in B by lia.
  assert (HL : (0 <= layer_count p)%Z) by nia.
  unfold centers_in_order.
  rewrite <- (Z2Nat.id (layer_count p)) at 1 by assumption.
  rewrite layout_by_turn by assumption.
  rewrite Z2Nat.id by assumption.
  now rewrite Z.min_l by lia.
Qed.

Lemma length_by_turn (t : Z) : length (by_turn p t) = Z.to_nat spt.
Proof. unfold by_turn, turn_centers. now rewrite length_map, length_range. Qed.

Lemma length_placed :
  (1 <= tpl)%Z -> (0 <= T)%Z -> (0 <= spt)%Z ->
  Z.of_nat (length (placed p)) = (spt * T)%Z.
Proof.
  intros Htpl HT Hs. rewrite placed_by_turn by assumption.
  rewrite (length_flat_map_uniform _ (Z.to_nat spt))
    by (intros; apply length_by_turn).
  rewrite length_range. lia.
Qed.

(** Where the strand [s] of the turn number [t] sits in the list. *)
Lemma nth_error_placed (t s : Z) :
  (1 <= tpl)%Z -> (0 <= t < T)%Z -> (0 <= s < spt)%Z ->
  nth_error (placed p) (Z.to_nat (t * spt + s))
  = Some (strand_center p (t / tpl) (t mod tpl) s).
Proof.
  intros Htpl Ht Hs. rewrite placed_by_turn by lia.
  replace (Z.to_nat (t * spt + s))
    with (Z.to_nat t * Z.to_nat spt + Z.to_nat s)%nat by nia.
  rewrite (nth_error_flat_map_uniform _ (Z.to_nat spt)) with (x := t).
  - unfold by_turn, turn_centers.
    rewrite nth_error_map, nth_error_range by assumption. reflexivity.
  - intros; apply length_by_turn.
  - apply nth_error_range. assumption.
  - lia.
Qed.

(** Without turns, without strands, or without turns per layer, nothing is
    placed. *)
Lemma placed_nil :
  (spt <= 0)%Z \/ (T <= 0)%Z \/ (tpl <= 0)%Z -> placed p = [].
Proof.
  intro H. rewrite placed_in_order. unfold centers_in_order, layout.
  destruct H as [Hs|[HT|Htpl]].
  - apply flat_map_nil. intros ly _. unfold layer_centers.
    apply flat_map_nil. intros tx _. unfold turn_centers.
    now rewrite range_nonpos.
  - pose proof layer_count_bounds as B.
    rewrite range_nonpos; [reflexivity|]. nia.
  - apply flat_map_nil. intros ly _. unfold layer_centers, turns_in_layer.
    rewrite range_nonpos; [reflexivity|]. lia.
Qed.

(** Every entry of the list is the strand of a turn. *)
Lemma placed_entry (i : nat) (c : Q * Q) :
  nth_error (placed p) i = Some c ->
  (1 <= tpl)%Z /\ (1 <= spt)%Z /\
  (0 <= Z.of_nat i / spt < T)%Z /\
  c = strand_center p (Z.of_nat i / spt / tpl) ((Z.of_nat i / spt) mod tpl)
        (Z.of_nat i mod spt).
Proof.
  intro Hc.
  destruct (Z.le_gt_cases spt 0) as [Hs|Hs];
    [rewrite placed_nil in Hc by tauto; destruct i; discriminate|].
  destruct (Z.le_gt_cases T 0) as [HT|HT];
    [rewrite placed_nil in Hc by tauto; destruct i; discriminate|].
  destruct (Z.le_gt_cases tpl 0) as [Htpl|Htpl];
    [rewrite placed_nil in Hc by tauto; destruct i; discriminate|].
  assert (Hi : (i < length (placed p))%nat)
    by (apply nth_error_Some; congruence).
  pose proof (length_placed ltac:(lia) ltac:(lia) ltac:(lia)) as HN.
  pose proof (Z.div_mod (Z.of_nat i) spt ltac:(lia)) as Ei.
  pose proof (Z.mod_pos_bound (Z.of_nat i) spt ltac:(lia)) as Rs.
  assert (Rt : (0 <= Z.of_nat i / spt < T)%Z).
  { split; [apply Z.div_pos; lia|]. apply Z.div_lt_upper_bound; nia. }
  repeat split; try lia.
  pose proof (nth_error_placed (Z.of_nat i / spt) (Z.of_nat i mod spt)
                ltac:(lia) Rt Rs) as E.
  replace (Z.of_nat i / spt * spt + Z.of_nat i mod spt)%Z
    with (Z.of_nat i) in E by lia.
  rewrite Nat2Z.id in E. congruence.
Qed.

End Loops.

(** ** What [compute] returns *)

Section Outputs.

Variable p : CoilInputs Q.

Lemma compute_degenerate :
  raw_width p <= 0 \/ raw_height p <= 0 ->
  compute p
  = Ok {| window_width_mm := Py.max 0 (raw_width p);
          window_height_mm := Py.max 0 (raw_height p);
          layers := 0;
          strand_centers := [];
          strand_radius_mm := radius_of p;
          fill_factor := 0;
          adjusted_turns := 0 |}.
Proof.
  intro H. unfold compute. exact_arith. rewrite !truediv_2. cbn [bind]. cbv zeta.
  fold (raw_width p) (raw_height p) (d_eff_of p) (radius_of p).
  replace (leb (Py.max 0 (raw_width p)) 0 || leb (Py.max 0 (raw_height p)) 0)
    with true; [reflexivity|].
  symmetry. apply orb_true_iff.
  destruct H as [H|H]; [left|right];
    rewrite (max0_nonpos _ H); apply leb_le; lra.
Qed.

Lemma compute_valid :
  valid_window p ->
  compute p
  = Ok {| window_width_mm := raw_width p;
          window_height_mm := raw_height p;
          layers := layer_count p;
          strand_centers := placed p;
          strand_radius_mm := radius_of p;
          fill_factor :=
            inject_Z (sum_ones (counted p) (placed p)) * pi * radius_of p ^ 2
            / (raw_width p * raw_height p) * 100;
          adjusted_turns := total_turns p |}.
Proof.
  intros [Hw Hh]. unfold compute. exact_arith. rewrite !truediv_2. cbn [bind].
  cbv zeta.
  fold (raw_width p) (raw_height p) (d_eff_of p) (radius_of p).
  rewrite (max0_pos _ Hw), (max0_pos _ Hh).
  replace (leb (raw_width p) 0 || leb (raw_height p) 0) with false
    by (symmetry; apply orb_false_iff; split; now apply leb_gt).
  rewrite int_truediv_ok by lia. cbn [bind].
  fold (layer_count p) (spacing_x_of p) (spacing_y_of p) (placement p).
  unfold placed, counted.
  destruct (placement p) as [[st n] e]. cbn [fst].
  assert (Ha : 0 < raw_width p * raw_height p) by now apply Qmult_lt_0_compat.
  replace (ltb 0 (raw_width p * raw_height p)) with true
    by (symmetry; now apply ltb_lt).
  rewrite truediv_ok by lra. reflexivity.
Qed.

(** A window is valid or it is not. *)
Lemma window_cases : valid_window p \/ (raw_width p <= 0 \/ raw_height p <= 0).
Proof.
  unfold valid_window.
  destruct (Qlt_le_dec 0 (raw_width p)); destruct (Qlt_le_dec 0 (raw_height p));
    tauto.
Qed.

(** [compute] never raises. *)
Lemma compute_total : exists out, compute p = Ok out.
Proof.
  destruct window_cases as [H|H].
  - eexists. now apply compute_valid.
  - eexists. now apply compute_degenerate.
Qed.

(** Both window dimensions are non-negative, whatever the inputs. *)
Lemma window_nonneg (out : CoilOutputs Q) :
  compute p = Ok out -> 0 <= window_width_mm out /\ 0 <= window_height_mm out.
Proof.
  intro E. destruct window_cases as [H|H].
  - rewrite (compute_valid H) in E. injection E as <-. simpl.
    destruct H. split; lra.
  - rewrite (compute_degenerate H) in E. injection E as <-. simpl.
    split; apply max0_nonneg.
Qed.

End Outputs.

(** ** Counting *)





(** * The claims *)

(** ** Placement count and ordering *)






(** ** Fill factor *)



(** ** Degenerate windows *)

(** C4.  With a non-negative margin, when
    [outer_diameter <= inner_diameter + 2*margin] or
    [bobbin_length <= 2*margin], [compute] raises nothing and returns the
    degenerate result: the window dimension concerned is clamped to 0 (and
    neither dimension is negative), [layers = 0], no strand center,
    [fill_factor = 0] and [adjusted_turns = 0]. *)
Theorem degenerate_window (p : CoilInputs Q) :
  0 <= margin_mm p ->
  outer_diameter_mm p <= inner_diameter_mm p + 2 * margin_mm p
  \/ bobbin_length_mm p <= 2 * margin_mm p ->
  exists out,
    compute p = Ok out /\
    0 <= window_width_mm out /\
    0 <= window_height_mm out /\
    (outer_diameter_mm p <= inner_diameter_mm p + 2 * margin_mm p ->
     window_height_mm out = 0) /\
    (bobbin_length_mm p <= 2 * margin_mm p -> window_width_mm out = 0) /\
    layers out = 0%Z /\
    strand_centers out = [] /\
    fill_factor out = 0 /\
    adjusted_turns out = 0%Z.
Proof.
  intros Hm H.
  assert (Hh : outer_diameter_mm p <= inner_diameter_mm p + 2 * margin_mm p ->
               raw_height p <= 0).
  { intro Ho. unfold raw_height.
    setoid_replace ((outer_diameter_mm p - inner_diameter_mm p) / 2
                    - 2 * margin_mm p)
      with ((outer_diameter_mm p - inner_diameter_mm p - 4 * margin_mm p) * (1 # 2))
      by field.
    lra. }
  assert (Hw : bobbin_length_mm p <= 2 * margin_mm p -> raw_width p <= 0).
  { intro Hb. unfold raw_width. lra. }
  assert (D : raw_width p <= 0 \/ raw_height p <= 0) by tauto.
  eexists. split; [apply (compute_degenerate p D)|].
  cbn [window_width_mm window_height_mm layers strand_centers fill_factor
       adjusted_turns].
  split; [apply max0_nonneg|]. split; [apply max0_nonneg|].
  split; [intro Ho; apply max0_nonpos; auto|].
  split; [intro Hb; apply max0_nonpos; auto|].
  repeat split; reflexivity.
Qed.

(** A bobbin shorter than its two margins. *)
Lemma degenerate_window_narrow_bobbin :
  exists out,
    compute narrow_bobbin = Ok out /\
    window_width_mm out = 0 /\
    0 <= window_height_mm out /\
    layers out = 0%Z /\
    strand_centers out = [] /\
    fill_factor out = 0 /\
    adjusted_turns out = 0%Z.
Proof.
  assert (Hm : 0 <= margin_mm narrow_bobbin) by (intro C; discriminate C).
  assert (Hb : bobbin_length_mm narrow_bobbin <= 2 * margin_mm narrow_bobbin)
    by (intro C; discriminate C).
  destruct (degenerate_window narrow_bobbin Hm (or_intror Hb))
    as (out & Hout & _ & Hh & _ & Hw & HL & Hc & Hf & Ha).
  exists out. repeat split; auto.
Defined.

(** ** Monotonicity in the number of turns *)





(** ** Scaling the lengths *)

Section Scaling.

Variable p : CoilInputs Q.
Variable k : Q.
Hypothesis k_pos : 0 < k.

Lemma raw_width_scale : raw_width (scale k p) == k * raw_width p.
Proof. unfold raw_width. simpl. ring. Qed.

Lemma raw_height_scale : raw_height (scale k p) == k * raw_height p.
Proof. unfold raw_height. simpl. field. Qed.

Lemma radius_scale : radius_of (scale k p) == k * radius_of p.
Proof. unfold radius_of, d_eff_of. simpl. field. Qed.

Lemma valid_window_scale : valid_window (scale k p) <-> valid_window p.
Proof.
  unfold valid_window. rewrite raw_width_scale, raw_height_scale.
  split; intros [Hw Hh]; split; nra.
Qed.

Lemma strand_center_scale (ly tx s : Z) :
  fst (strand_center (scale k p) ly tx s) == k * fst (strand_center p ly tx s)
  /\ snd (strand_center (scale k p) ly tx s) == k * snd (strand_center p ly tx s).
Proof.
  unfold strand_center, radius_of, spacing_x_of, spacing_y_of, d_eff_of.
  simpl. split; field.
Qed.

Lemma leb_scale (a b a' b' : Q) :
  a' == k * a -> b' == k * b -> leb a' b' = leb a b.
Proof.
  intros Ha Hb. apply eq_true_iff_eq. rewrite !leb_le, Ha, Hb.
  split; intro H; nra.
Qed.

Lemma counted_scale (ly tx s : Z) :
  counted (scale k p) (strand_center (scale k p) ly tx s)
  = counted p (strand_center p ly tx s).
Proof.
  destruct (strand_center_scale ly tx s) as [Hx Hy].
  destruct (strand_center (scale k p) ly tx s) as [x' y'].
  destruct (strand_center p ly tx s) as [x y].
  cbn [fst snd] in Hx, Hy. unfold counted, in_window.
  assert (Hr : margin_mm (scale k p) + raw_width (scale k p)
               == k * (margin_mm p + raw_width p))
    by (rewrite raw_width_scale; simpl; ring).
  assert (Ht : margin_mm (scale k p) + raw_height (scale k p)
               == k * (margin_mm p + raw_height p))
    by (rewrite raw_height_scale; simpl; ring).
  assert (Hm : margin_mm (scale k p) == k * margin_mm p) by reflexivity.
  now rewrite (leb_scale _ _ _ _ Hm Hx), (leb_scale _ _ _ _ Hx Hr),
    (leb_scale _ _ _ _ Hm Hy), (leb_scale _ _ _ _ Hy Ht).
Qed.

End Scaling.

Lemma sum_ones_app {A : Type} (cond : A -> bool) (l l' : list A) :
  sum_ones cond (l ++ l') = (sum_ones cond l + sum_ones cond l')%Z.
Proof. rewrite !sum_ones_filter, filter_app, length_app. lia. Qed.

Lemma sum_ones_flat_map {A B : Type} (cond cond' : B -> bool)
  (g g' : A -> list B) (l : list A) :
  (forall x, In x l -> sum_ones cond (g x) = sum_ones cond' (g' x)) ->
  sum_ones cond (flat_map g l) = sum_ones cond' (flat_map g' l).
Proof.
  induction l as [|x l IH]; intro H; simpl; [reflexivity|].
  rewrite !sum_ones_app, (H x) by now left.
  rewrite IH; [reflexivity|]. intros y Hy. apply H. now right.
Qed.

Lemma sum_ones_map {A B : Type} (cond cond' : B -> bool) (f f' : A -> B)
  (l : list A) :
  (forall x, In x l -> cond (f x) = cond' (f' x)) ->
  sum_ones cond (map f l) = sum_ones cond' (map f' l).
Proof.
  intro H. rewrite !sum_ones_filter. f_equal.
  induction l as [|x l IH]; simpl; [reflexivity|].
  rewrite (H x) by now left.
  destruct (cond' (f' x)); simpl; rewrite IH; auto;
    intros y Hy; apply H; now right.
Qed.

(** Scaling the lengths keeps the number of counted centers. *)
Lemma counted_scale_invariant (p : CoilInputs Q) (k : Q) :
  0 < k ->
  sum_ones (counted (scale k p)) (placed (scale k p))
  = sum_ones (counted p) (placed p).
Proof.
  intro Hk. rewrite !placed_in_order. unfold centers_in_order, layout.
  change (layer_count (scale k p)) with (layer_count p).
  apply sum_ones_flat_map. intros ly _. unfold layer_centers.
  change (turns_in_layer (scale k p) ly) with (turns_in_layer p ly).
  apply sum_ones_flat_map. intros tx _. unfold turn_centers.
  change (strands_per_turn (scale k p)) with (strands_per_turn p).
  apply sum_ones_map. intros s _. now apply counted_scale.
Qed.

(** C6, as amended.  In exact arithmetic, multiplying [inner_diameter],
    [outer_diameter], [bobbin_length], [strand_diameter] and [margin] by one
    positive factor, the counts, the insulation factor and the pack factors
    unchanged, leaves [fill_factor] unchanged. *)
Theorem fill_factor_scale_invariant (p : CoilInputs Q) (k : Q) :
  0 < k ->
  exists out out',
    compute p = Ok out /\
    compute (scale k p) = Ok out' /\
    fill_factor out' == fill_factor out.
Proof.
  intro Hk. destruct (window_cases p) as [Hv|Hd].
  - assert (Hv' : valid_window (scale k p)) by now apply valid_window_scale.
    eexists. eexists.
    split; [apply (compute_valid p Hv)|].
    split; [apply (compute_valid _ Hv')|].
    cbn [fill_factor]. rewrite (counted_scale_invariant p k Hk).
    change (radius_of (scale k p) ^ 2)
      with (radius_of (scale k p) * radius_of (scale k p)).
    change (radius_of p ^ 2) with (radius_of p * radius_of p).
    rewrite (radius_scale p k), (raw_width_scale p k), (raw_height_scale p k).
    destruct Hv as [Hw Hh]. field. repeat split; lra.
  - assert (Hd' : raw_width (scale k p) <= 0 \/ raw_height (scale k p) <= 0).
    { rewrite raw_width_scale, raw_height_scale. destruct Hd; [left|right]; nra. }
    eexists. eexists.
    split; [apply (compute_degenerate p Hd)|].
    split; [apply (compute_degenerate _ Hd')|].
    reflexivity.
Qed.

(** The application's inputs in inches rather than millimetres. *)
Lemma fill_factor_scale_invariant_inches :
  exists out out',
    compute app_exact = Ok out /\
    compute (scale (10 # 254) app_exact) = Ok out' /\
    fill_factor out' == fill_factor out.
Proof.
  apply (fill_factor_scale_invariant app_exact (10 # 254)). reflexivity.
Defined.

(** On binary64 floats the claim fails.  In [grid_mm] the first center,
    (3, 3), lies on the upper edge of the window [[2, 4] x [2, 3]] and is
    the one center counted: the fill factor is 50 pi.  With every length
    multiplied by 0.1 the center is at 0.30000000000000004 and the edge at
    0.3: no center is counted and the fill factor is 0. *)
Lemma scaling_drops_boundary_center :
  exists out out',
    compute grid_mm = Ok out /\
    compute (scale tenth grid_mm) = Ok out' /\
    ltb (of_int 0) tenth = true /\
    ltb (of_int 157) (fill_factor out) = true /\
    eqb (fill_factor out') (of_int 0) = true /\
    eqb (fill_factor out') (fill_factor out) = false.
Proof.
  eexists. eexists.
  split; [vm_compute; reflexivity|].
  split; [vm_compute; reflexivity|].
  repeat split; vm_compute; reflexivity.
Qed.

(** ** Overpacked windows *)

(** C7.  [fill_factor] is not capped at 100: on the application's own
    initial inputs, whose window is valid, [compute] returns a fill factor
    above 100, in exact arithmetic and on binary64 floats (about 113.3). *)
Theorem fill_factor_above_100 :
  (exists out : CoilOutputs Q,
      valid_window app_exact /\
      compute app_exact = Ok out /\
      100 < fill_factor out) /\
  (exists out : CoilOutputs float,
      compute app_inputs = Ok out /\
      ltb (of_int 0) (window_width_mm out) = true /\
      ltb (of_int 0) (window_height_mm out) = true /\
      ltb (of_int 100) (fill_factor out) = true).
Proof.
  split.
  - eexists. split; [split; reflexivity|].
    split; [vm_compute; reflexivity|]. vm_compute. reflexivity.
  - eexists. split; [vm_compute; reflexivity|].
    repeat split; vm_compute; reflexivity.
Qed.

(** ** Counts outside the nominal domain *)








(** * Runs on binary64 floats

    The inputs of the witnesses above, run on the arithmetic of Python's
    floats: the counts are those of the theorems. *)

Lemma app_inputs_on_floats :
  exists f : float,
    summary (compute app_binary64) = Some (36%Z, 540%nat, f, 180%Z)
    /\ ltb (of_int 113) f = true /\ ltb f (of_int 114) = true.
Proof.
  eexists. split; [vm_compute; reflexivity|].
  split; vm_compute; reflexivity.
Qed.

Lemma more_turns_on_floats :
  exists f f' : float,
    summary (compute (with_total_turns app_binary64 100))
    = Some (20%Z, 300%nat, f, 100%Z)
    /\ summary (compute app_binary64) = Some (36%Z, 540%nat, f', 180%Z)
    /\ leb f f' = true.
Proof.
  eexists. eexists. split; [vm_compute; reflexivity|].
  split; vm_compute; reflexivity.
Qed.

Lemma narrow_bobbin_on_floats :
  summary (compute narrow_bobbin_binary64) = Some (0%Z, 0%nat, of_int 0, 0%Z).
Proof. vm_compute. reflexivity. Qed.

Lemma no_turn_per_layer_on_floats :
  summary (compute no_turn_per_layer_binary64)
  = Some (4%Z, 0%nat, of_int 0, 4%Z).
Proof. vm_compute. reflexivity. Qed.

Lemma negative_turns_on_floats :
  exists f : float,
    summary (compute (with_total_turns app_binary64 (-5)))
    = Some ((-1)%Z, 0%nat, f, (-5)%Z)
    /\ eqb f (of_int 0) = true.
Proof. eexists. split; vm_compute; reflexivity. Qed.

(** * More about [compute] *)

Section MoreLoops.

Variable p : CoilInputs Q.

Local Abbreviation T := (total_turns p).
Local Abbreviation tpl := (turns_per_layer p).
Local Abbreviation spt := (strands_per_turn p).
Local Abbreviation loop :=
  (layer_loop p (d_eff_of p) (radius_of p) (spacing_x_of p) (spacing_y_of p)).



End MoreLoops.

(** X1.  For every input [compute] returns a result, without raising: the
    divisor of the layer count is at least 1 and the division by the window
    area is made for a positive area only.  In the result neither window
    dimension nor the fill factor is negative, and the strand radius is half
    the insulated strand diameter. *)
Theorem compute_returns (p : CoilInputs Q) :
  exists out,
    compute p = Ok out /\
    0 <= window_width_mm out /\
    0 <= window_height_mm out /\
    0 <= fill_factor out /\
    strand_radius_mm out = strand_diameter_mm p * insulation_factor p / 2.
Proof.
  destruct (window_cases p) as [Hv|Hd].
  - eexists. split; [apply (compute_valid p Hv)|].
    cbn [window_width_mm window_height_mm fill_factor strand_radius_mm].
    destruct Hv as [Hw Hh].
    split; [lra|]. split; [lra|]. split; [|reflexivity].
    rewrite sum_ones_filter.
    assert (HN : 0 <= inject_Z (Z.of_nat (length (filter (counted p) (placed p))))).
    { change 0 with (inject_Z 0). rewrite <- Zle_Qle. lia. }
    assert (Ha : 0 < raw_width p * raw_height p) by now apply Qmult_lt_0_compat.
    assert (Hpi : 0 < pi) by reflexivity.
    assert (Hr : 0 <= radius_of p ^ 2) by (simpl; nra).
    apply Qmult_le_0_compat; [|lra].
    apply Qle_shift_div_l; [exact Ha|].
    rewrite Qmult_0_l.
    apply Qmult_le_0_compat; [|exact Hr].
    apply Qmult_le_0_compat; [exact HN|lra].
  - eexists. split; [apply (compute_degenerate p Hd)|].
    cbn [window_width_mm window_height_mm fill_factor strand_radius_mm].
    split; [apply max0_nonneg|]. split; [apply max0_nonneg|].
    split; [lra|reflexivity].
Qed.





(** X4.  The lead-slot dimensions and the wire type are carried by the
    inputs and never read: changing them changes nothing of what [compute]
    returns, in either arithmetic. *)
Theorem presentation_fields_unread (F : Type) (H : Float F) (p : CoilInputs F)
  (slot_width slot_depth : F) (wire : string) :
  compute (with_presentation p slot_width slot_depth wire) = compute p.
Proof. reflexivity. Qed.

(** ** The extent of the placement *)

Section Extent.

Variable p : CoilInputs Q.

Hypothesis d_eff_nonneg : 0 <= d_eff_of p.
Hypothesis horiz_nonneg : 0 <= horiz_pack_factor p.
Hypothesis vert_nonneg : 0 <= vert_pack_factor p.

Lemma spacing_nonneg :
  (0 <= strands_per_turn p)%Z -> 0 <= spacing_x_of p /\ 0 <= spacing_y_of p.
Proof.
  intro Hs. unfold spacing_x_of, spacing_y_of.
  assert (0 <= inject_Z (strands_per_turn p))
    by (change 0 with (inject_Z 0); now rewrite <- Zle_Qle).
  split.
  - apply Qmult_le_0_compat; [apply Qmult_le_0_compat|]; assumption.
  - apply Qmult_le_0_compat; assumption.
Qed.

(** A strand of a turn within bounds lies in the box of the grid. *)
Lemma strand_center_in_box (ly tx s L : Z) :
  (0 <= ly < L)%Z -> (0 <= tx < turns_per_layer p)%Z ->
  (0 <= s < strands_per_turn p)%Z ->
  within (margin_mm p + radius_of p)
    (margin_mm p + inject_Z (turns_per_layer p - 1) * spacing_x_of p
     + inject_Z (strands_per_turn p - 1) * d_eff_of p + radius_of p)
    (margin_mm p + radius_of p)
    (margin_mm p + inject_Z (L - 1) * spacing_y_of p + radius_of p)
    (strand_center p ly tx s).
Proof.
  intros Hly Htx Hs. destruct spacing_nonneg as [Hsx Hsy]; [lia|].
  unfold within, strand_center. cbn [fst snd].
  assert (Q0 : forall a b : Z, (a <= b)%Z -> inject_Z a <= inject_Z b)
    by (intros a b Hab; now rewrite <- Zle_Qle).
  pose proof (Q0 0%Z tx ltac:(lia)) as X0.
  pose proof (Q0 tx (turns_per_layer p - 1)%Z ltac:(lia)) as X1.
  pose proof (Q0 0%Z s ltac:(lia)) as S0.
  pose proof (Q0 s (strands_per_turn p - 1)%Z ltac:(lia)) as S1.
  pose proof (Q0 0%Z ly ltac:(lia)) as Y0.
  pose proof (Q0 ly (L - 1)%Z ltac:(lia)) as Y1.
  change (inject_Z 0) with 0 in *.
  repeat split; nra.
Qed.

End Extent.

(** X5.  With a valid window, a non-negative insulated diameter and
    non-negative pack factors, every strand center lies in the box spanned
    by the first and the last strand of a full grid:
    [margin + radius <= x <= margin + (turns_per_layer - 1) * spacing_x
     + (strands_per_turn - 1) * d_eff + radius] and
    [margin + radius <= y <= margin + (layers - 1) * spacing_y + radius]. *)
Theorem centers_in_grid_box (p : CoilInputs Q) :
  valid_window p ->
  0 <= strand_diameter_mm p * insulation_factor p ->
  0 <= horiz_pack_factor p ->
  0 <= vert_pack_factor p ->
  exists out,
    compute p = Ok out /\
    forall c : Q * Q,
      In c (strand_centers out) ->
      within (margin_mm p + strand_radius_mm out)
        (margin_mm p + inject_Z (turns_per_layer p - 1) * spacing_x_of p
         + inject_Z (strands_per_turn p - 1) * d_eff_of p + strand_radius_mm out)
        (margin_mm p + strand_radius_mm out)
        (margin_mm p + inject_Z (layers out - 1) * spacing_y_of p
         + strand_radius_mm out)
        c.
Proof.
  intros Hv Hd Hh Hvp.
  eexists. split; [apply (compute_valid p Hv)|].
  cbn [strand_centers strand_radius_mm layers].
  intros c Hc. apply In_nth_error in Hc. destruct Hc as [i Hi].
  destruct (placed_entry p i c Hi) as (Htpl & Hs & Rt & ->).
  pose proof (layer_count_bounds p) as B. rewrite Z.max_r in B by lia.
  apply strand_center_in_box; try assumption.
  - split; [apply Z.div_pos; lia|]. apply Z.div_lt_upper_bound; lia.
  - apply Z.mod_pos_bound. lia.
  - apply Z.mod_pos_bound. lia.
Qed.

Lemma centers_in_grid_box_app_inputs :
  exists out,
    compute app_exact = Ok out /\
    forall c : Q * Q,
      In c (strand_centers out) ->
      fst c <= margin_mm app_exact + inject_Z 4 * spacing_x_of app_exact
               + inject_Z 2 * d_eff_of app_exact + strand_radius_mm out
      /\ snd c <= margin_mm app_exact + inject_Z 35 * spacing_y_of app_exact
                  + strand_radius_mm out.
Proof.
  assert (Hv : valid_window app_exact) by (split; reflexivity).
  destruct (centers_in_grid_box app_exact Hv) as (out & Hout & Hbox);
    [intro C; discriminate C ..|].
  exists out. split; [exact Hout|]. intros c Hc.
  assert (HL : layers out = 36%Z).
  { rewrite (compute_valid app_exact Hv) in Hout. injection Hout as <-.
    reflexivity. }
  specialize (Hbox c Hc). rewrite HL in Hbox.
  destruct Hbox as [[_ Hx] [_ Hy]]. split; assumption.
Defined.




(** * The unit toggle *)

(** ** Rounding *)

Lemma Zle_of_Qlt_half (a b : Z) : inject_Z a < inject_Z b + (1 # 2) -> (a <= b)%Z.
Proof.
  intro H. apply Z.lt_succ_r. rewrite Zlt_Qlt, <- Z.add_1_r, inject_Z_plus.
  change (inject_Z 1) with 1. lra.
Qed.

Lemma round_half_even_bounds (x : Q) :
  inject_Z (round_half_even x) - (1 # 2) <= x
  /\ x <= inject_Z (round_half_even x) + (1 # 2).
Proof.
  unfold round_half_even.
  pose proof (Qfloor_le x) as Hlo. pose proof (Qlt_floor x) as Hhi.
  rewrite inject_Z_plus in Hhi. change (inject_Z 1) with 1 in Hhi.
  destruct (Qcompare (x - inject_Z (Qfloor x)) (1 # 2)) eqn:E.
  - apply Qeq_alt in E.
    destruct (Z.even (Qfloor x));
      [|rewrite inject_Z_plus; change (inject_Z 1) with 1]; split; lra.
  - apply Qlt_alt in E. split; lra.
  - apply Qgt_alt in E. rewrite inject_Z_plus. change (inject_Z 1) with 1.
    split; lra.
Qed.

Lemma round_half_even_near (n : Z) (x : Q) :
  inject_Z n - (1 # 2) < x -> x < inject_Z n + (1 # 2) ->
  round_half_even x = n.
Proof.
  intros Hlo Hhi. unfold round_half_even. cbv zeta.
  pose proof (Qfloor_le x) as Flo. pose proof (Qlt_floor x) as Fhi.
  rewrite inject_Z_plus in Fhi. change (inject_Z 1) with 1 in Fhi.
  assert (H1 : (Qfloor x <= n)%Z) by (apply Zle_of_Qlt_half; lra).
  assert (H2 : (n <= Qfloor x + 1)%Z).
  { apply Zle_of_Qlt_half. rewrite inject_Z_plus.
    change (inject_Z 1) with 1. lra. }
  destruct (Z.eq_dec (Qfloor x) n) as [E|E].
  - rewrite E in *.
    destruct (Qcompare (x - inject_Z n) (1 # 2)) eqn:C.
    + apply Qeq_alt in C. exfalso. lra.
    + reflexivity.
    + apply Qgt_alt in C. exfalso. lra.
  - assert (E' : n = (Qfloor x + 1)%Z) by lia.
    rewrite E', inject_Z_plus in Hlo. change (inject_Z 1) with 1 in Hlo.
    destruct (Qcompare (x - inject_Z (Qfloor x)) (1 # 2)) eqn:C.
    + apply Qeq_alt in C. exfalso. lra.
    + apply Qlt_alt in C. exfalso. lra.
    + lia.
Qed.

(** [round(x, 4)] and [round(x, 3)] move [x] by at most half a unit of the
    last digit kept. *)
Lemma py_round_4_bounds (x : Q) :
  x - (1 # 20000) <= py_round x 4 /\ py_round x 4 <= x + (1 # 20000).
Proof.
  change (py_round x 4)
    with (inject_Z (round_half_even (x * 10000)) / 10000).
  destruct (round_half_even_bounds (x * 10000)) as [Hlo Hhi].
  set (r := inject_Z (round_half_even (x * 10000))) in *.
  setoid_replace (r / 10000) with (r * (1 # 10000)) by field.
  split; lra.
Qed.

Lemma py_round_3_bounds (x : Q) :
  x - (1 # 2000) <= py_round x 3 /\ py_round x 3 <= x + (1 # 2000).
Proof.
  change (py_round x 3)
    with (inject_Z (round_half_even (x * 1000)) / 1000).
  destruct (round_half_even_bounds (x * 1000)) as [Hlo Hhi].
  set (r := inject_Z (round_half_even (x * 1000))) in *.
  setoid_replace (r / 1000) with (r * (1 # 1000)) by field.
  split; lra.
Qed.

(** A length shown in inches survives the way to millimetres and back. *)
Lemma inches_survive (x : Q) :
  py_round (py_round (py_round x 4 * 25.4) 3 / 25.4) 4 = py_round x 4.
Proof.
  change (py_round x 4)
    with (inject_Z (round_half_even (x * 10000)) / 10000).
  set (n := round_half_even (x * 10000)).
  set (e := inject_Z n / 10000).
  change (py_round (py_round (e * 25.4) 3 / 25.4) 4)
    with (inject_Z (round_half_even (py_round (e * 25.4) 3 / 25.4 * 10000))
          / 10000).
  unfold e at 2. f_equal. f_equal.
  apply round_half_even_near;
    destruct (py_round_3_bounds (e * 25.4)) as [Hlo Hhi];
    set (m := py_round (e * 25.4) 3) in *;
    assert (He : e == inject_Z n * (1 # 10000)) by (unfold e; field);
    setoid_replace (m / 25.4 * 10000) with (m * (100000 # 254)) by field;
    lra.
Qed.

(** ** What [toggle_units] does to the variables *)

Lemma to_inches_lengths (v : Vars.t) :
  App.to_inches App.lengths v = Ok (in_inches v).
Proof. reflexivity. Qed.

Lemma to_millimetres_lengths (v : Vars.t) :
  App.to_millimetres App.lengths v = in_millimetres v.
Proof. reflexivity. Qed.

Lemma in_inches_survives (v : Vars.t) :
  in_inches (in_millimetres (in_inches v)) = in_inches v.
Proof.
  unfold in_inches at 1 3. unfold in_millimetres. cbn [Vars.inner_diameter
    Vars.outer_diameter Vars.bobbin_length Vars.strand_diameter
    Vars.strands_per_turn Vars.turns_per_layer Vars.total_turns
    Vars.horiz_pack_factor Vars.vert_pack_factor in_inches].
  now rewrite !inches_survive.
Qed.

(** [_draw] starts from cleared axes: what was drawn before is gone. *)
Lemma draw_patches_fresh (self : App.t) (ps : list Patch) :
  App.draw_patches self ps = App.draw_patches self [].
Proof.
  unfold App.draw_patches. cbv zeta.
  destruct (compute_total (App._get_inputs self)) as [out E].
  unfold Axes.bind at 1 3. unfold Axes.lift at 1 3. rewrite E.
  unfold Axes.bind at 1 3. unfold Axes.lift at 1 3.
  destruct (App.is_metric self); reflexivity.
Qed.

(** The state a redraw leaves depends on the variables only. *)
Lemma draw_state (self : App.t) :
  fst (App._draw self)
  = {| App.is_metric := App.is_metric self;
       App.vars := App.vars self;
       App.wire_type_var := App.wire_type_var self;
       App.patches := fst (App.draw_patches self []) |}.
Proof.
  unfold App._draw. rewrite draw_patches_fresh.
  now destruct (App.draw_patches self []).
Qed.

(** [_draw] reads the unit flag, the variables and the wire type, and nothing
    else of the application. *)
Lemma draw_patches_ext (s1 s2 : App.t) :
  App.is_metric s1 = App.is_metric s2 -> App.vars s1 = App.vars s2 ->
  App.wire_type_var s1 = App.wire_type_var s2 ->
  App.draw_patches s1 = App.draw_patches s2.
Proof.
  destruct s1, s2. cbn [App.is_metric App.vars App.wire_type_var].
  intros -> -> ->. reflexivity.
Qed.

Lemma app_ext (s1 s2 : App.t) :
  App.is_metric s1 = App.is_metric s2 -> App.vars s1 = App.vars s2 ->
  App.wire_type_var s1 = App.wire_type_var s2 ->
  App.patches s1 = App.patches s2 -> s1 = s2.
Proof.
  destruct s1, s2. cbn. now intros -> -> -> ->.
Qed.

Lemma toggle_state (self : App.t) :
  let self' := fst (App.toggle_units self) in
  App.is_metric self' = negb (App.is_metric self) /\
  App.vars self'
  = (if App.is_metric self then in_inches (App.vars self)
     else in_millimetres (App.vars self)) /\
  App.wire_type_var self' = App.wire_type_var self /\
  App.patches self' = fst (App.draw_patches self' []).
Proof.
  cbv zeta. unfold App.toggle_units.
  assert (E : (if App.is_metric self
               then App.to_inches App.lengths (App.vars self)
               else Ok (App.to_millimetres App.lengths (App.vars self)))
              = Ok (if App.is_metric self then in_inches (App.vars self)
                    else in_millimetres (App.vars self)))
    by (destruct (App.is_metric self); reflexivity).
  rewrite E. rewrite draw_state.
  cbn [App.is_metric App.vars App.wire_type_var App.patches].
  repeat split.
Qed.

Lemma toggle_twice_state (self : App.t) :
  let self'' := fst (App.toggle_units (fst (App.toggle_units self))) in
  App.is_metric self'' = App.is_metric self /\
  App.vars self''
  = (if App.is_metric self then in_millimetres (in_inches (App.vars self))
     else in_inches (in_millimetres (App.vars self))) /\
  App.wire_type_var self'' = App.wire_type_var self /\
  App.patches self'' = fst (App.draw_patches self'' []).
Proof.
  cbv zeta.
  destruct (toggle_state self) as (M1 & V1 & W1 & _).
  destruct (toggle_state (fst (App.toggle_units self))) as (M2 & V2 & W2 & P2).
  repeat split.
  - rewrite M2, M1. apply negb_involutive.
  - rewrite V2, M1, V1. now destruct (App.is_metric self).
  - now rewrite W2.
  - exact P2.
Qed.

Lemma to_inches_close (x : Q) :
  apart (127 # 100000) (x * 1.0) (py_round (x / 25.4) 4 * 25.4).
Proof.
  destruct (py_round_4_bounds (x / 25.4)) as [Hlo Hhi].
  set (r := py_round (x / 25.4) 4) in *.
  assert (E : x / 25.4 == x * (10 # 254)) by field.
  rewrite E in Hlo, Hhi. unfold apart. split; lra.
Qed.

Lemma to_millimetres_close (x : Q) :
  apart (127 # 100000) (x * 25.4) (py_round (x * 25.4) 3 * 1.0).
Proof.
  destruct (py_round_3_bounds (x * 25.4)) as [Hlo Hhi].
  set (r := py_round (x * 25.4) 3) in *.
  unfold apart. split; lra.
Qed.

Lemma millimetres_there_and_back (x : Q) :
  apart (177 # 100000) x (py_round (py_round (x / 25.4) 4 * 25.4) 3).
Proof.
  destruct (py_round_4_bounds (x / 25.4)) as [Hlo Hhi].
  set (r := py_round (x / 25.4) 4) in *.
  destruct (py_round_3_bounds (r * 25.4)) as [Glo Ghi].
  set (m := py_round (r * 25.4) 3) in *.
  assert (E : x / 25.4 == x * (10 # 254)) by field.
  rewrite E in Hlo, Hhi. unfold apart. split; lra.
Qed.

Lemma inches_there_and_back (x : Q) :
  apart (7 # 100000) x (py_round (py_round (x * 25.4) 3 / 25.4) 4).
Proof.
  destruct (py_round_3_bounds (x * 25.4)) as [Hlo Hhi].
  set (m := py_round (x * 25.4) 3) in *.
  destruct (py_round_4_bounds (m / 25.4)) as [Glo Ghi].
  set (r := py_round (m / 25.4) 4) in *.
  assert (E : m / 25.4 == m * (10 # 254)) by field.
  rewrite E in Glo, Ghi. unfold apart. split; lra.
Qed.

(** X7. [toggle_units] followed by [_get_inputs]: one toggle flips the unit
    flag, and the inputs handed to [compute] afterwards differ from those
    before by at most 0.00127 mm in each of the four lengths, with the same
    counts, pack factors, insulation factor, margin and wire type (exact
    arithmetic). *)
Theorem toggle_units_inputs_close (self : App.t) :
  let before := App._get_inputs self in
  let after := App._get_inputs (fst (App.toggle_units self)) in
  App.is_metric (fst (App.toggle_units self)) = negb (App.is_metric self) /\
  apart (127 # 100000) (inner_diameter_mm before) (inner_diameter_mm after) /\
  apart (127 # 100000) (outer_diameter_mm before) (outer_diameter_mm after) /\
  apart (127 # 100000) (bobbin_length_mm before) (bobbin_length_mm after) /\
  apart (127 # 100000) (strand_diameter_mm before) (strand_diameter_mm after) /\
  strands_per_turn after = strands_per_turn before /\
  turns_per_layer after = turns_per_layer before /\
  total_turns after = total_turns before /\
  horiz_pack_factor after = horiz_pack_factor before /\
  vert_pack_factor after = vert_pack_factor before /\
  insulation_factor after = insulation_factor before /\
  margin_mm after = margin_mm before /\
  wire_type after = wire_type before.
Proof.
  cbv zeta. destruct (toggle_state self) as (M & V & W & _).
  split; [exact M|]. unfold App._get_inputs.
  cbn [inner_diameter_mm outer_diameter_mm bobbin_length_mm strand_diameter_mm
       strands_per_turn turns_per_layer total_turns horiz_pack_factor
       vert_pack_factor insulation_factor margin_mm wire_type].
  rewrite M, V, W. destruct (App.is_metric self); cbn [negb]; conjuncts;
    first [apply to_inches_close | apply to_millimetres_close | reflexivity].
Qed.

(** X8. [toggle_units] twice: the unit flag is back, the counts and pack
    factors are untouched, and each length variable is within 0.00177 of its
    value before when the application was in millimetres, within 0.00007
    when it was in inches (exact arithmetic): the displayed numbers are not
    restored exactly, they are rounded on the way. *)
Theorem toggle_units_twice_drift (self : App.t) :
  let v := App.vars self in
  let v'' := App.vars (fst (App.toggle_units (fst (App.toggle_units self)))) in
  let tol := if App.is_metric self then 177 # 100000 else 7 # 100000 in
  App.is_metric (fst (App.toggle_units (fst (App.toggle_units self))))
  = App.is_metric self /\
  apart tol (Vars.inner_diameter v) (Vars.inner_diameter v'') /\
  apart tol (Vars.outer_diameter v) (Vars.outer_diameter v'') /\
  apart tol (Vars.bobbin_length v) (Vars.bobbin_length v'') /\
  apart tol (Vars.strand_diameter v) (Vars.strand_diameter v'') /\
  Vars.strands_per_turn v'' = Vars.strands_per_turn v /\
  Vars.turns_per_layer v'' = Vars.turns_per_layer v /\
  Vars.total_turns v'' = Vars.total_turns v /\
  Vars.horiz_pack_factor v'' = Vars.horiz_pack_factor v /\
  Vars.vert_pack_factor v'' = Vars.vert_pack_factor v.
Proof.
  cbv zeta. destruct (toggle_twice_state self) as (M & V & _ & _).
  split; [exact M|]. rewrite V.
  destruct (App.is_metric self); conjuncts;
    first [apply millimetres_there_and_back | apply inches_there_and_back
          | reflexivity].
Qed.

(** X9. [toggle_units] settles after one round trip: from the state two
    toggles leave, two more toggles lead back to exactly that state, with
    the same variables and the same patches on the axes (exact
    arithmetic). *)
Theorem toggle_units_settles (self : App.t) :
  let settled := fst (App.toggle_units (fst (App.toggle_units self))) in
  fst (App.toggle_units (fst (App.toggle_units settled))) = settled.
Proof.
  cbv zeta.
  destruct (toggle_twice_state self) as (M & V & W & P).
  set (settled := fst (App.toggle_units (fst (App.toggle_units self)))) in *.
  destruct (toggle_twice_state settled) as (M' & V' & W' & P').
  set (again := fst (App.toggle_units (fst (App.toggle_units settled)))) in *.
  assert (EV : App.vars again = App.vars settled).
  { rewrite V', M, V. destruct (App.is_metric self).
    - now rewrite in_inches_survives.
    - now rewrite in_inches_survives. }
  apply app_ext; try assumption.
  rewrite P', P.
  now rewrite (draw_patches_ext again settled) by assumption.
Qed.

Lemma py_round_3_grid (x : Q) :
  py_round x 3 * 1000 == inject_Z (round_half_even (x * 1000)).
Proof.
  change (py_round x 3) with (inject_Z (round_half_even (x * 1000)) / 1000).
  field.
Qed.

(** X10. [toggle_units] twice is lossy: started in millimetres, a length
    variable that is not a whole number of thousandths does not come back to
    its value, since the way back rounds to three digits (exact
    arithmetic). *)
Theorem toggle_units_twice_lossy (self : App.t) (key : Key.t) :
  App.is_metric self = true -> In key App.lengths ->
  (forall k, ~ Vars.get (App.vars self) key * 1000 == inject_Z k) ->
  ~ Vars.get
      (App.vars (fst (App.toggle_units (fst (App.toggle_units self))))) key
    == Vars.get (App.vars self) key.
Proof.
  intros Hm Hkey Hx Heq.
  destruct (toggle_twice_state self) as (_ & V & _ & _).
  rewrite V, Hm in Heq.
  assert (G : exists y,
             Vars.get (in_millimetres (in_inches (App.vars self))) key
             = py_round y 3).
  { cbn [App.lengths In] in Hkey.
    destruct Hkey as [<-|[<-|[<-|[<-|[]]]]]; eexists; reflexivity. }
  destruct G as [y G]. rewrite G in Heq.
  apply (Hx (round_half_even (y * 1000))).
  rewrite <- Heq. apply py_round_3_grid.
Qed.

Lemma toggle_units_twice_lossy_bobbin_length :
  ~ Vars.get
      (App.vars (fst (App.toggle_units (fst (App.toggle_units started)))))
      Key.bobbin_length
    == Vars.get (App.vars started) Key.bobbin_length.
Proof.
  apply (toggle_units_twice_lossy started Key.bobbin_length).
  - reflexivity.
  - simpl. tauto.
  - intro k.
    let x := eval vm_compute in (Vars.get (App.vars started) Key.bobbin_length)
    in change (Vars.get (App.vars started) Key.bobbin_length) with x.
    unfold Qeq. simpl. lia.
Defined.

(** * The drawing *)

(** ** The layer a strand is coloured by *)







(** ** The patches [_draw] adds *)










